(** * The Markov-chain tweet generator of [app.py]

    A shallow embedding of [generate_markov_tweet] (app.py, lines 35-55) and
    of the Python operations it relies on, followed by the properties of the
    generator stated in the specification.

    The generator reads a transition table (a Python [dict] from words to
    lists of successor words, loaded from JSON) and draws from the global
    generator of Python's [random] module.  Both live in a [world] that the
    embedding threads through the function, so that what the call does to
    the table object and to the random generator can be stated. *)

From Stdlib Require Import ZArith String List Lia.
From stdpp Require Import base list strings.
Import ListNotations.

Local Open Scope string_scope.
Local Open Scope list_scope.
Local Open Scope Z_scope.

(** ** Python values *)

(** A transition table.  Python dictionaries enumerate their keys in
    insertion order, and [random.choice(list(chain.keys()))] observes that
    order, so the table is kept as the list of its items in that order.  A
    dictionary has no two items with the same key; lookup takes the first
    item with the key, which in a dictionary is the only one. *)
Definition Chain : Type := list (string * list string).

(** [d[k]] when present. *)
Fixpoint dict_lookup (d : Chain) (k : string) : option (list string) :=
  match d with
  | [] => None
  | (k', v) :: d' => if String.eqb k k' then Some v else dict_lookup d' k
  end.

(** [d.get(k, dflt)] *)
Definition dict_get (d : Chain) (k : string) (dflt : list string) : list string :=
  default dflt (dict_lookup d k).

(** [k in d] *)
Definition dict_contains (d : Chain) (k : string) : bool :=
  match dict_lookup d k with Some _ => true | None => false end.

(** [list(d.keys())] *)
Definition dict_keys (d : Chain) : list string := d.*1.

(** Truth value of a container ([bool(x)] is [len(x) != 0]). *)
Definition list_truthy {A} (l : list A) : bool :=
  match l with [] => false | _ :: _ => true end.

Definition str_truthy (s : string) : bool :=
  match s with EmptyString => false | String _ _ => true end.

(** [sep.join(words)] *)
Definition str_join (sep : string) (words : list string) : string :=
  String.concat sep words.

(** ** The random source *)

(** The generator of the [random] module is taken as a parameter: a state
    and the one primitive [random.choice] is built on, [_randbelow(n)],
    which for [n > 0] returns an integer below [n] and moves the generator
    on (by as many raw draws as its rejection loop takes). *)
Class RandomSource (St : Type) : Type := {
  randbelow : nat -> St -> nat * St;
  randbelow_lt : forall n s, (0 < n)%nat -> ((randbelow n s).1 < n)%nat
}.

(** ** State and exceptions *)

Inductive exn : Type := IndexError.

Inductive result (A : Type) : Type :=
  | Ok (a : A)
  | Raise (e : exn).
Arguments Ok {A} a.
Arguments Raise {A} e.

(** What a call can read and change: the dictionary object its [chain]
    parameter refers to, and the state of the random generator. *)
Record world (St : Type) : Type := World { w_chain : Chain; w_rng : St }.
Arguments World {St} _ _.
Arguments w_chain {St} _.
Arguments w_rng {St} _.

Definition M (St A : Type) : Type := world St -> result A * world St.

Definition ret {St A} (a : A) : M St A := fun w => (Ok a, w).

Definition bind {St A B} (m : M St A) (k : A -> M St B) : M St B :=
  fun w =>
    match m w with
    | (Ok a, w') => k a w'
    | (Raise e, w') => (Raise e, w')
    end.

Declare Scope py_scope.
Delimit Scope py_scope with py.
Notation "'let*' x ':=' m 'in' k" := (bind m (fun x => k))
  (at level 10, x name, m at level 100, k at level 200) : py_scope.

Definition result_map {A B} (f : A -> B) (r : result A) : result B :=
  match r with Ok a => Ok (f a) | Raise e => Raise e end.

Section Generator.
Context {St : Type} `{RandomSource St}.

Local Open Scope py_scope.

(** Reads of the dictionary bound to [chain]. *)
Definition chain_truthy : M St bool :=
  fun w => (Ok (list_truthy (w_chain w)), w).

Definition chain_contains (k : string) : M St bool :=
  fun w => (Ok (dict_contains (w_chain w) k), w).

Definition chain_keys : M St (list string) :=
  fun w => (Ok (dict_keys (w_chain w)), w).

Definition chain_get (k : string) (dflt : list string) : M St (list string) :=
  fun w => (Ok (dict_get (w_chain w) k dflt), w).

(** [random.choice(seq)]: [IndexError] on an empty sequence, else
    [seq[_randbelow(len(seq))]]. *)
Definition random_choice {A} (seq : list A) : M St A :=
  fun w =>
    match seq with
    | [] => (Raise IndexError, w)
    | _ :: _ =>
        let '(i, r) := randbelow (List.length seq) (w_rng w) in
        let w' := World (w_chain w) r in
        match seq !! i with
        | Some x => (Ok x, w')
        | None => (Raise IndexError, w')
        end
    end.

(** Lines 43-46: the start word.  [seed] is [None] (the default) or a
    string; [seed and seed in chain] tests membership only for a non-empty
    string. *)
Definition start_word (seed : option string) : M St string :=
  match seed with
  | Some s =>
      if str_truthy s then
        let* present := chain_contains s in
        if present : bool then ret s
        else (let* keys := chain_keys in random_choice keys)
      else (let* keys := chain_keys in random_choice keys)
  | None => let* keys := chain_keys in random_choice keys
  end.

(** Lines 49-54: the loop, with [n] iterations of [range(length - 1)]
    left, the current [word] and the words appended so far. *)
Fixpoint walk (n : nat) (word : string) (tweet_words : list string)
  : M St (list string) :=
  match n with
  | O => ret tweet_words
  | S n' =>
      let* next_words := chain_get word [] in
      if list_truthy next_words then
        let* word' := random_choice next_words in
        walk n' word' (tweet_words ++ [word'])
      else ret tweet_words
  end.

(** Lines 43-54: the list [tweet_words] when the function reaches its
    last line.  [range(length - 1)] has [max(0, length - 1)] elements. *)
Definition markov_words (length : Z) (seed : option string)
  : M St (list string) :=
  let* word := start_word seed in
  walk (Z.to_nat (length - 1)) word [word].

Definition sentinel : string := "Not enough data to generate a tweet.".

(** [generate_markov_tweet(chain, length, seed)], with [chain] the
    dictionary of the world. *)
Definition generate_markov_tweet (length : Z) (seed : option string)
  : M St string :=
  let* chain_nonempty := chain_truthy in
  if negb chain_nonempty then ret sentinel
  else
    let* tweet_words := markov_words length seed in
    ret (str_join " " tweet_words).


(** The call on [w] returns the words [tweet_words] joined by single
    spaces, [tweet_words] being the list built by lines 43-54, and leaves
    the world [w']. *)
Definition returns_words (w : world St) (length : Z) (seed : option string)
    (tweet_words : list string) (w' : world St) : Prop :=
  markov_words length seed w = (Ok tweet_words, w')
  /\ generate_markov_tweet length seed w = (Ok (str_join " " tweet_words), w').

End Generator.

(** ** Runs that draw alike *)

Section Agreement.
Context {St1 St2 : Type} `{RandomSource St1} `{RandomSource St2}.
Variable same : St1 -> St2 -> Prop.

(** Two random sources answer alike from states related by [same]: asked
    for a number below the same [n > 0] they return the same number, and
    move to states that are related again. *)
Definition same_draws : Prop :=
  forall n s1 s2,
    (0 < n)%nat -> same s1 s2 ->
    (randbelow n s1).1 = (randbelow n s2).1
    /\ same (randbelow n s1).2 (randbelow n s2).2.

Definition same_world (w1 : world St1) (w2 : world St2) : Prop :=
  w_chain w1 = w_chain w2 /\ same (w_rng w1) (w_rng w2).

(** Two outcomes agree: the same value returned or exception raised, in
    worlds that are alike. *)
Definition agree {A} (o1 : result A * world St1) (o2 : result A * world St2)
  : Prop :=
  o1.1 = o2.1 /\ same_world o1.2 o2.2.
End Agreement.

(** ** Paths through a chain *)

(** [walk_from d word rest]: [rest] can follow [word] in a walk over [d],
    each word being one of the successors stored under the word before. *)
Inductive walk_from (d : Chain) : string -> list string -> Prop :=
  | walk_from_nil word : walk_from d word []
  | walk_from_cons word next_words word' rest :
      dict_lookup d word = Some next_words ->
      word' ∈ next_words ->
      walk_from d word' rest ->
      walk_from d word (word' :: rest).

#[local] Hint Constructors walk_from : core.

(** ** Random sources to run the generator on *)

(** A counter: from state [k] a draw returns [k mod n] and moves to [k + 1]. *)
Definition counter_randbelow (n : nat) (s : nat) : nat * nat :=
  ((s mod n)%nat, S s).

#[export] Instance counter_source : RandomSource nat.
Proof.
  refine {| randbelow := counter_randbelow |}.
  intros n s Hn. cbn [counter_randbelow fst]. apply Nat.mod_upper_bound. lia.
Defined.

(** A tape of raw draws with a reading position, as a seeded or mocked
    generator replays it: a draw reduces the raw value under the head
    modulo [n] and moves the head on. *)
Definition tape_randbelow (n : nat) (s : (nat -> nat) * nat)
  : nat * ((nat -> nat) * nat) :=
  ((s.1 s.2 mod n)%nat, (s.1, S s.2)).

#[export] Instance tape_source : RandomSource ((nat -> nat) * nat).
Proof.
  refine {| randbelow := tape_randbelow |}.
  intros n s Hn. cbn [tape_randbelow fst]. apply Nat.mod_upper_bound. lia.
Defined.

(** The tape whose raw draws are 0, 1, 2, ..., read from position [s],
    answers as the counter in state [s] does. *)
Definition counts_from (s : nat) (t : (nat -> nat) * nat) : Prop :=
  t = (fun k => k, s).

(** The tables of the specification's scenarios, and one with a stored
    empty successor list. *)
Definition cycle_chain : Chain := [("x", ["y"]); ("y", ["x"])].
Definition abc_chain : Chain := [("a", ["b"; "b"; "c"])].
Definition stub_chain : Chain := [("a", ["b"]); ("b", [])].

(** ** Shapes of tables *)

(** Line 43, [seed and seed in chain]: the seed is used as the start word. *)
Definition seed_usable (d : Chain) (seed : option string) : bool :=
  match seed with
  | Some s => str_truthy s && dict_contains d s
  | None => false
  end.

(** Every stored successor list is non-empty and holds only keys of the
    table: a walk over such a table never reaches a word without
    successors. *)
Definition no_dead_end (d : Chain) : bool :=
  forallb (fun item : string * list string =>
             list_truthy item.2 && forallb (dict_contains d) item.2) d.

(** Every stored successor list has at most one element. *)
Definition single_successors (d : Chain) : bool :=
  forallb (fun item : string * list string =>
             Nat.leb (List.length item.2) 1) d.

(** ** Counting draws *)

(** A random source that answers as the one below it and counts the calls
    of [_randbelow]. *)
Definition counting_randbelow {St : Type} `{RandomSource St}
    (n : nat) (s : St * nat) : nat * (St * nat) :=
  ((randbelow n s.1).1, ((randbelow n s.1).2, S s.2)).

Definition counting_source {St : Type} `{RandomSource St}
  : RandomSource (St * nat).
Proof.
  refine {| randbelow := counting_randbelow |}.
  intros n s Hn. cbn [counting_randbelow fst]. by apply randbelow_lt.
Defined.

(** ** The caller *)

(** [markov_chains], the dictionary of per-user tables read from
    markov_chains.json, with [markov_chains.get(selected_user, dflt)]. *)
Fixpoint chains_lookup (markov_chains : list (string * Chain))
    (selected_user : string) : option Chain :=
  match markov_chains with
  | [] => None
  | (user, chain) :: others =>
      if String.eqb selected_user user then Some chain
      else chains_lookup others selected_user
  end.

Definition chains_get (markov_chains : list (string * Chain))
    (selected_user : string) (dflt : Chain) : Chain :=
  default dflt (chains_lookup markov_chains selected_user).

(** Lines 223 and 230-231, what a press of "Generate Tweet" displays: the
    tweet generated from the selected user's table, as a bold block quote.
    The call works on the dictionary found for the user, or on a new empty
    one. *)
Definition generated_tweet_markdown {St : Type} `{RandomSource St}
    (markov_chains : list (string * Chain)) (selected_user : string)
    (tweet_length : Z) (seed_text : string) (r : St)
  : result string * world St :=
  let chain := chains_get markov_chains selected_user [] in
  let '(generated_tweet, w') :=
    generate_markov_tweet tweet_length (Some seed_text) (World chain r) in
  (result_map (fun t => "> **" +:+ t +:+ "**") generated_tweet, w').

(** ** Filtering a data frame by date *)

(** A cell of the "Date" column.  As read from the CSV file: the text of
    the field, or the missing value of an empty field.  After conversion: a
    timestamp (as pandas keeps it, a number of nanoseconds since the
    epoch), or the missing date [NaT]. *)
Inductive cell : Type :=
  | Text (s : string)
  | Missing
  | Timestamp (t : Z)
  | NaT.

Definition is_datetime (c : cell) : bool :=
  match c with
  | Timestamp _ | NaT => true
  | Text _ | Missing => false
  end.

(** A row of a data frame: its "Date" cell and its other columns. *)
Record row (A : Type) : Type := Row { Date : cell; columns : A }.
Arguments Row {A} _ _.
Arguments Date {A} _.
Arguments columns {A} _.

Section FilterByDate.
Context {A D : Type}.

(** The two conversions of [pd.to_datetime] are parameters: [parse column s]
    is the timestamp read from the text [s] of a cell, or [None] when the
    text is not a date (the format may be guessed from the whole column);
    [stamp d] is the timestamp of a date of the caller. *)
Variable parse : list cell -> string -> option Z.
Variable stamp : D -> Z.

(** [pd.to_datetime(column, errors="coerce")] on one cell: a missing value
    and text that is not a date become [NaT]; timestamps and [NaT] stay. *)
Definition to_datetime_coerce (column : list cell) (c : cell) : cell :=
  match c with
  | Text s =>
      match parse column s with
      | Some t => Timestamp t
      | None => NaT
      end
  | Missing => NaT
  | Timestamp t => Timestamp t
  | NaT => NaT
  end.

(** [column >= t] and [column <= t] on one cell; a comparison with [NaT]
    is false. *)
Definition cell_ge (c : cell) (t : Z) : bool :=
  match c with Timestamp u => t <=? u | _ => false end.

Definition cell_le (c : cell) (t : Z) : bool :=
  match c with Timestamp u => u <=? t | _ => false end.

(** A row whose date is converted: a timestamp or [NaT]. *)
Definition dated (r : row A) : Prop := is_datetime (Date r) = true.

(** Line 32, [data["Date"] = pd.to_datetime(data["Date"], errors="coerce")]:
    the frame with its "Date" column converted. *)
Definition convert_dates (data : list (row A)) : list (row A) :=
  let column := map Date data in
  map (fun r => Row (to_datetime_coerce column (Date r)) (columns r)) data.

(** Line 33, the mask
    [(data["Date"] >= pd.to_datetime(start_date))
     & (data["Date"] <= pd.to_datetime(end_date))] on one row. *)
Definition in_date_range (start_date end_date : D) (r : row A) : bool :=
  cell_ge (Date r) (stamp start_date) && cell_le (Date r) (stamp end_date).

(** [filter_by_date(data, start_date, end_date)], lines 31-33.  Line 32
    assigns the converted column to the frame passed in; line 33 returns a
    new frame with the rows the mask selects, in their order.  The result
    is the pair of the frame passed in, as the call leaves it, and the
    frame returned. *)
Definition filter_by_date (data : list (row A)) (start_date end_date : D)
  : list (row A) * list (row A) :=
  let data := convert_dates data in
  (data, List.filter (in_date_range start_date end_date) data).
End FilterByDate.

(** A stand-in for the parser, reading three dates, and days since the
    epoch as the caller's dates. *)
Definition ns_per_day : Z := 86400000000000.

Definition three_day_parse (column : list cell) (s : string) : option Z :=
  if String.eqb s "1970-01-01" then Some 0
  else if String.eqb s "1970-01-02" then Some ns_per_day
  else if String.eqb s "1970-01-03" then Some (2 * ns_per_day)
  else None.

Definition day_stamp (d : Z) : Z := d * ns_per_day.

Definition sample_frame : list (row Z) :=
  [Row (Text "1970-01-03") 4; Row (Text "n/a") 9; Row Missing 1;
   Row (Text "1970-01-01") 7; Row (Text "1970-01-02") 2].

(** A [markov_chains] dictionary with a user whose table is empty. *)
Definition sample_chains : list (string * Chain) :=
  [("alice", cycle_chain); ("bob", [])].

(** ** Sample runs *)

Example run_cycle :
  generate_markov_tweet 5 (Some "x") (World cycle_chain 7%nat)
  = (Ok "x y x y x", World cycle_chain 11%nat).
Proof. reflexivity. Qed.

Example run_abc :
  generate_markov_tweet 3 (Some "a") (World abc_chain (fun _ => 2%nat, 0%nat))
  = (Ok "a c", World abc_chain (fun _ => 2%nat, 1%nat)).
Proof. reflexivity. Qed.

Example run_unseeded :
  generate_markov_tweet 4 (Some "") (World cycle_chain 1%nat)
  = (Ok "y x y x", World cycle_chain 5%nat).
Proof. reflexivity. Qed.

Example run_filter :
  filter_by_date three_day_parse day_stamp sample_frame 1 2
  = ([Row (Timestamp (2 * ns_per_day)) 4; Row NaT 9; Row NaT 1;
      Row (Timestamp 0) 7; Row (Timestamp ns_per_day) 2],
     [Row (Timestamp (2 * ns_per_day)) 4; Row (Timestamp ns_per_day) 2]).
Proof. reflexivity. Qed.

Example run_empty :
  generate_markov_tweet 10 None (World [] 0%nat) = (Ok sentinel, World [] 0%nat).
Proof. reflexivity. Qed.

(** ** Dictionary facts *)

Lemma dict_contains_keys d k : dict_contains d k = true <-> k ∈ dict_keys d.
Proof.
  unfold dict_contains, dict_keys.
  induction d as [|[k' v] d IH]; simpl.
  - split; [discriminate | by intros ?%elem_of_nil].
  - destruct (String.eqb_spec k k') as [->|Hne].
    + split; [intros _; left | done].
    + rewrite IH. split; [by right | by intros [?| ?]%elem_of_cons].
Qed.

Lemma dict_get_nil d k :
  dict_get d k [] = [] <-> dict_lookup d k = None \/ dict_lookup d k = Some [].
Proof.
  unfold dict_get. destruct (dict_lookup d k) as [v|]; simpl.
  - split; [intros ->; by right | by intros [?|[= ->]]].
  - split; [by left | done].
Qed.

Lemma dict_get_truthy d k next_words :
  dict_get d k [] = next_words -> list_truthy next_words = true ->
  dict_lookup d k = Some next_words.
Proof.
  unfold dict_get. destruct (dict_lookup d k) as [v|]; simpl.
  - by intros ->.
  - by intros <-.
Qed.

Lemma dict_keys_nonempty (d : Chain) : d <> [] -> dict_keys d <> [].
Proof. by destruct d. Qed.

(** ** The generator, step by step *)

Section GeneratorFacts.
Context {St : Type} `{RandomSource St}.

(** A choice from a non-empty sequence returns the element at the index
    drawn and touches nothing but the random generator. *)
Lemma random_choice_draw {A} (seq : list A) (w : world St) :
  seq <> [] ->
  exists x,
    seq !! (randbelow (List.length seq) (w_rng w)).1 = Some x
    /\ random_choice seq w
       = (Ok x, World (w_chain w) (randbelow (List.length seq) (w_rng w)).2).
Proof.
  intros Hne. unfold random_choice.
  destruct seq as [|a seq']; [done|].
  pose proof (randbelow_lt (List.length (a :: seq')) (w_rng w)) as Hlt.
  destruct (randbelow (List.length (a :: seq')) (w_rng w)) as [i r].
  cbn [fst snd] in *.
  destruct (lookup_lt_is_Some_2 (a :: seq') i) as [x Hx];
    [cbn [List.length] in *; lia|].
  rewrite Hx. by exists x.
Qed.

Lemma random_choice_ok {A} (seq : list A) (w : world St) :
  seq <> [] ->
  exists x r, random_choice seq w = (Ok x, World (w_chain w) r) /\ x ∈ seq.
Proof.
  intros Hne. destruct (random_choice_draw seq w Hne) as (x & Hx & Hrun).
  exists x, (randbelow (List.length seq) (w_rng w)).2. split; [done|].
  by eapply list_elem_of_lookup_2.
Qed.

(** Lines 43-46: without a usable seed the start word is a random key. *)
Lemma start_word_unseeded (seed : option string) (w : world St) :
  seed = None \/ seed = Some ""
    \/ (exists s, seed = Some s /\ s ∉ dict_keys (w_chain w)) ->
  start_word seed w = bind chain_keys random_choice w.
Proof.
  intros [->|[->|(s & -> & Hnotin)]]; [done..|].
  unfold start_word. destruct (str_truthy s); [|done].
  unfold bind at 1. unfold chain_contains.
  destruct (dict_contains (w_chain w) s) eqn:Hin; [|done].
  by apply dict_contains_keys in Hin.
Qed.

Lemma random_key_ok (w : world St) :
  w_chain w <> [] ->
  exists word r,
    bind chain_keys random_choice w = (Ok word, World (w_chain w) r)
    /\ word ∈ dict_keys (w_chain w).
Proof.
  intros Hne. unfold bind, chain_keys.
  apply random_choice_ok. by apply dict_keys_nonempty.
Qed.

(** Lines 43-44: a usable seed is the start word, and nothing is drawn. *)
Lemma start_word_seed (s : string) (w : world St) :
  str_truthy s = true -> dict_contains (w_chain w) s = true ->
  start_word (Some s) w = (Ok s, w).
Proof.
  intros Hs Hin. unfold start_word, bind, chain_contains. by rewrite Hs, Hin.
Qed.

(** Lines 43-46: on a non-empty table the start word is a key. *)
Lemma start_word_ok (seed : option string) (w : world St) :
  w_chain w <> [] ->
  exists word r,
    start_word seed w = (Ok word, World (w_chain w) r)
    /\ word ∈ dict_keys (w_chain w).
Proof.
  intros Hne. unfold start_word.
  destruct seed as [s|]; [|by apply random_key_ok].
  destruct (str_truthy s); [|by apply random_key_ok].
  unfold bind at 1. unfold chain_contains.
  destruct (dict_contains (w_chain w) s) eqn:Hin; [|by apply random_key_ok].
  exists s, (w_rng w). destruct w as [d r]. split; [done|].
  by apply dict_contains_keys.
Qed.

(** Lines 50-52: a word with no stored successors ends the loop. *)
Lemma walk_dead_end (n : nat) (word : string) (tweet_words : list string)
    (w : world St) :
  dict_get (w_chain w) word [] = [] ->
  walk n word tweet_words w = (Ok tweet_words, w).
Proof.
  intros Hget. destruct n as [|n]; [done|].
  simpl. unfold bind, chain_get. by rewrite Hget.
Qed.

(** Lines 50-54 at a word with a single stored successor: the choice can
    only be that successor. *)
Lemma walk_only_successor (n : nat) (word word' : string)
    (tweet_words : list string) (w : world St) :
  dict_get (w_chain w) word [] = [word'] ->
  exists r,
    walk (S n) word tweet_words w
    = walk n word' (tweet_words ++ [word']) (World (w_chain w) r).
Proof.
  intros Hget. cbn [walk]. unfold bind at 1. unfold chain_get. rewrite Hget.
  unfold bind. cbn [list_truthy]. cbv beta.
  destruct (random_choice_ok [word'] w) as (x & r & -> & Hx); [done|].
  apply list_elem_of_singleton in Hx as ->. by exists r.
Qed.

(** Lines 49-54: the loop returns, having appended at most [n] words that
    continue the walk from [word], and leaves the table as it was. *)
Lemma walk_spec (n : nat) (word : string) (tweet_words : list string)
    (w : world St) :
  exists rest r,
    walk n word tweet_words w = (Ok (tweet_words ++ rest), World (w_chain w) r)
    /\ (List.length rest <= n)%nat
    /\ walk_from (w_chain w) word rest.
Proof.
  revert word tweet_words w.
  induction n as [|n IH]; intros word tweet_words w.
  - exists [], (w_rng w). destruct w as [d r]; simpl.
    rewrite app_nil_r. repeat split; auto; lia.
  - simpl. unfold bind at 1. unfold chain_get.
    destruct (dict_get (w_chain w) word []) as [|a next_words] eqn:Hget.
    + exists [], (w_rng w). destruct w as [d r]; simpl in *.
      rewrite app_nil_r. repeat split; auto; lia.
    + unfold bind. cbn [list_truthy]. cbv beta.
      destruct (random_choice_ok (a :: next_words) w) as (word' & r & -> & Hin);
        [done|].
      destruct (IH word' (tweet_words ++ [word']) (World (w_chain w) r))
        as (rest & r' & -> & Hlen & Hpath).
      cbn [w_chain] in *. exists (word' :: rest), r'.
      rewrite <- app_assoc. repeat split.
      * cbn [List.length]. lia.
      * apply dict_get_truthy in Hget; [|done]. eauto.
Qed.

(** Lines 43-54 from the start word on. *)
Lemma markov_words_from_start (length : Z) (seed : option string)
    (w : world St) (word : string) (r0 : St) :
  start_word seed w = (Ok word, World (w_chain w) r0) ->
  exists rest r,
    markov_words length seed w = (Ok (word :: rest), World (w_chain w) r)
    /\ (List.length rest <= Z.to_nat (length - 1))%nat
    /\ walk_from (w_chain w) word rest.
Proof.
  intros Hstart. unfold markov_words, bind. rewrite Hstart.
  destruct (walk_spec (Z.to_nat (length - 1)) word [word] (World (w_chain w) r0))
    as (rest & r & -> & Hlen & Hpath).
  by exists rest, r.
Qed.

Lemma markov_words_spec (length : Z) (seed : option string) (w : world St) :
  w_chain w <> [] ->
  exists word rest r,
    markov_words length seed w = (Ok (word :: rest), World (w_chain w) r)
    /\ word ∈ dict_keys (w_chain w)
    /\ (List.length rest <= Z.to_nat (length - 1))%nat
    /\ walk_from (w_chain w) word rest.
Proof.
  intros Hne.
  destruct (start_word_ok seed w Hne) as (word & r0 & Hstart & Hkey).
  destruct (markov_words_from_start length seed w word r0 Hstart)
    as (rest & r & Hrun & Hlen & Hpath).
  by exists word, rest, r.
Qed.

(** Lines 39-40 and 55: the sentinel on an empty table, else the words
    joined by single spaces. *)
Lemma generate_empty (length : Z) (seed : option string) (w : world St) :
  w_chain w = [] -> generate_markov_tweet length seed w = (Ok sentinel, w).
Proof.
  intros Hempty. unfold generate_markov_tweet, bind, chain_truthy.
  by rewrite Hempty.
Qed.

Lemma generate_nonempty (length : Z) (seed : option string) (w : world St) :
  w_chain w <> [] ->
  generate_markov_tweet length seed w
  = (result_map (str_join " ") (markov_words length seed w).1,
     (markov_words length seed w).2).
Proof.
  intros Hne. unfold generate_markov_tweet, bind, chain_truthy.
  destruct (w_chain w) as [|item d] eqn:Hd; [done|]. cbn [list_truthy negb].
  by destruct (markov_words length seed w) as [[ws|e] w'].
Qed.

Lemma returns_words_intro (length : Z) (seed : option string)
    (w w' : world St) (tweet_words : list string) :
  w_chain w <> [] ->
  markov_words length seed w = (Ok tweet_words, w') ->
  returns_words w length seed tweet_words w'.
Proof.
  intros Hne Hrun. split; [done|].
  rewrite generate_nonempty by done. by rewrite Hrun.
Qed.

(** Adjacent words of a walk: the later is a stored successor of the
    earlier. *)
Lemma walk_from_adjacent (d : Chain) (word : string) (rest : list string)
    (i : nat) (prev next : string) :
  walk_from d word rest ->
  (word :: rest) !! i = Some prev ->
  (word :: rest) !! S i = Some next ->
  exists next_words, dict_lookup d prev = Some next_words /\ next ∈ next_words.
Proof.
  intros Hpath. revert i.
  induction Hpath as [word|word next_words word' rest Hlook Hin Hpath IH];
    intros i Hprev Hnext.
  - by destruct i.
  - destruct i as [|i].
    + simpl in Hprev, Hnext. injection Hprev as <-. injection Hnext as <-.
      by exists next_words.
    + by apply (IH i).
Qed.
End GeneratorFacts.

(** ** Properties of [generate_markov_tweet] *)

Section Properties.
Context {St : Type} `{RandomSource St}.

(** C1. On a non-empty table and for a positive requested length, the call
    returns the space-joined sequence [tweet_words], whose number of words
    is at least 1 and at most the requested length. *)
Theorem word_count_in_range (w : world St) (length : Z) (seed : option string) :
  w_chain w <> [] -> 0 < length ->
  exists tweet_words w',
    returns_words w length seed tweet_words w'
    /\ 1 <= Z.of_nat (List.length tweet_words) <= length.
Proof.
  intros Hne Hpos.
  destruct (markov_words_spec length seed w Hne)
    as (word & rest & r & Hrun & _ & Hlen & _).
  exists (word :: rest), (World (w_chain w) r). split.
  - by apply returns_words_intro.
  - cbn [List.length]. lia.
Qed.

(** C2. On an empty table the call returns exactly the sentinel string
    "Not enough data to generate a tweet.", whatever the requested length,
    the seed and the state of the random source. *)
Theorem empty_chain_sentinel (length : Z) (seed : option string) (r : St) :
  generate_markov_tweet length seed (World [] r)
  = (Ok "Not enough data to generate a tweet.", World [] r).
Proof. by apply generate_empty. Qed.

(** C3. On a non-empty table, a seed that is a non-empty string and a key
    of the table is the first word of the generated sequence. *)
Theorem seed_is_first_word (w : world St) (length : Z) (s : string) :
  w_chain w <> [] -> s <> "" -> s ∈ dict_keys (w_chain w) ->
  exists rest w', returns_words w length (Some s) (s :: rest) w'.
Proof.
  intros Hne Hs Hkey.
  assert (start_word (Some s) w = (Ok s, World (w_chain w) (w_rng w))) as Hstart.
  { rewrite start_word_seed; [by destruct w | by destruct s |].
    by apply dict_contains_keys. }
  destruct (markov_words_from_start length (Some s) w s _ Hstart)
    as (rest & r & Hrun & _).
  exists rest, (World (w_chain w) r). by apply returns_words_intro.
Qed.

(** C4. On a non-empty table, when the seed is absent, is the empty string
    or is not a key of the table, the first word of the generated sequence
    is one of the table's keys. *)
Theorem unseeded_first_word_is_key (w : world St) (length : Z)
    (seed : option string) :
  w_chain w <> [] ->
  seed = None \/ seed = Some ""
    \/ (exists s, seed = Some s /\ s ∉ dict_keys (w_chain w)) ->
  exists word rest w',
    returns_words w length seed (word :: rest) w'
    /\ word ∈ dict_keys (w_chain w)
    /\ dict_keys (w_chain w)
         !! (randbelow (List.length (dict_keys (w_chain w))) (w_rng w)).1
       = Some word.
Proof.
  intros Hne Hseed.
  destruct (random_choice_draw (dict_keys (w_chain w)) w) as (word & Hdraw & Hch);
    [by apply dict_keys_nonempty|].
  assert (start_word seed w = (Ok word, World (w_chain w)
            (randbelow (List.length (dict_keys (w_chain w))) (w_rng w)).2))
    as Hstart by (by rewrite start_word_unseeded).
  destruct (markov_words_from_start length seed w word _ Hstart)
    as (rest & r & Hrun & _).
  exists word, rest, (World (w_chain w) r). split; [|split; [|done]].
  - by apply returns_words_intro.
  - by eapply list_elem_of_lookup_2.
Qed.

(** C5. When the current word's successor list is absent from the table
    or empty, the loop stops at once, whatever number of iterations is
    left, returning the words gathered so far without raising and without
    a draw; the two cases are not told apart.  So in a run on a non-empty
    table such a word can only be the last word of the sequence. *)
Theorem dead_end_stops (w : world St) (n : nat) (word : string)
    (tweet_words : list string) :
  dict_lookup (w_chain w) word = None \/ dict_lookup (w_chain w) word = Some [] ->
  walk n word tweet_words w = (Ok tweet_words, w)
  /\ forall length seed,
       w_chain w <> [] ->
       exists ws w',
         returns_words w length seed ws w'
         /\ forall i, ws !! i = Some word -> S i = List.length ws.
Proof.
  intros Hdead. split.
  - apply walk_dead_end. by apply dict_get_nil.
  - intros length seed Hne.
    destruct (markov_words_spec length seed w Hne)
      as (first & rest & r & Hrun & _ & _ & Hpath).
    exists (first :: rest), (World (w_chain w) r).
    split; [by apply returns_words_intro|].
    intros i Hi.
    destruct (decide (S i = List.length (first :: rest))) as [|Hmore]; [done|].
    exfalso.
    pose proof (lookup_lt_Some _ _ _ Hi) as Hlt.
    destruct (lookup_lt_is_Some_2 (first :: rest) (S i)) as [next Hnext]; [lia|].
    destruct (walk_from_adjacent _ _ _ _ _ _ Hpath Hi Hnext)
      as (next_words & Hlook & Hin).
    destruct Hdead as [Hnone|Hnil]; rewrite Hlook in *; [done|].
    injection Hnil as ->. by apply elem_of_nil in Hin.
Qed.

(** C6. On the table {"x": ["y"], "y": ["x"]} with length 5 and seed "x"
    the call returns "x y x y x", whatever the random source and its
    state. *)
Theorem cycle_scenario (r : St) :
  exists r',
    generate_markov_tweet 5 (Some "x") (World [("x", ["y"]); ("y", ["x"])] r)
    = (Ok "x y x y x", World [("x", ["y"]); ("y", ["x"])] r').
Proof.
  set (d := [("x", ["y"]); ("y", ["x"])]).
  destruct (walk_only_successor 3 "x" "y" ["x"] (World d r)) as [r1 E1]; [done|].
  destruct (walk_only_successor 2 "y" "x" ["x"; "y"] (World d r1)) as [r2 E2];
    [done|].
  destruct (walk_only_successor 1 "x" "y" ["x"; "y"; "x"] (World d r2))
    as [r3 E3]; [done|].
  destruct (walk_only_successor 0 "y" "x" ["x"; "y"; "x"; "y"] (World d r3))
    as [r4 E4]; [done|].
  exists r4. rewrite generate_nonempty by done.
  unfold markov_words, bind.
  change (start_word (Some "x") (World d r)) with (Ok "x", World d r).
  change (Z.to_nat (5 - 1)) with 4%nat.
  cbn [w_chain app] in *. by rewrite E1, E2, E3, E4.
Qed.

(** C8. On a non-empty table and for a requested length of zero or less
    the call does not raise: the loop runs no iteration, and the result is
    the start word alone, a key of the table. *)
Theorem nonpositive_length_single_word (w : world St) (length : Z)
    (seed : option string) :
  w_chain w <> [] -> length <= 0 ->
  exists word w',
    returns_words w length seed [word] w'
    /\ generate_markov_tweet length seed w = (Ok word, w')
    /\ word ∈ dict_keys (w_chain w).
Proof.
  intros Hne Hlen.
  destruct (markov_words_spec length seed w Hne)
    as (word & rest & r & Hrun & Hkey & Hcount & _).
  replace (Z.to_nat (length - 1)) with 0%nat in Hcount by lia.
  destruct rest as [|? ?]; [|cbn [List.length] in Hcount; lia].
  exists word, (World (w_chain w) r).
  pose proof (returns_words_intro length seed w _ [word] Hne Hrun) as Hret.
  split; [done|]. split; [|done].
  destruct Hret as [_ ->]. by destruct word.
Qed.

(** C9, amended. The call never mutates the table: the dictionary is the
    same after the call as before, and no state other than that of the
    random source is changed. *)
Theorem chain_never_mutated (w : world St) (length : Z) (seed : option string) :
  exists r, (generate_markov_tweet length seed w).2 = World (w_chain w) r.
Proof.
  destruct (decide (w_chain w = [])) as [Hempty|Hne].
  - exists (w_rng w). rewrite generate_empty by done. by destruct w.
  - destruct (markov_words_spec length seed w Hne)
      as (word & rest & r & Hrun & _).
    exists r. rewrite generate_nonempty by done. by rewrite Hrun.
Qed.

(** C10. On a non-empty table the generated sequence is a path through
    the chain: each word after the first is an element of the successor
    list stored under the word just before it. *)
Theorem generated_sequence_is_path (w : world St) (length : Z)
    (seed : option string) :
  w_chain w <> [] ->
  exists tweet_words w',
    returns_words w length seed tweet_words w'
    /\ forall i prev next,
         tweet_words !! i = Some prev -> tweet_words !! S i = Some next ->
         exists next_words,
           dict_lookup (w_chain w) prev = Some next_words /\ next ∈ next_words.
Proof.
  intros Hne.
  destruct (markov_words_spec length seed w Hne)
    as (word & rest & r & Hrun & _ & _ & Hpath).
  exists (word :: rest), (World (w_chain w) r).
  split; [by apply returns_words_intro|].
  intros i prev next. by apply walk_from_adjacent.
Qed.
End Properties.

(** ** Two runs *)

Section Determinism.
Context {St1 St2 : Type} `{RandomSource St1} `{RandomSource St2}.
Variable same : St1 -> St2 -> Prop.
Hypothesis Hsame : same_draws same.

Lemma agree_ret {A} (a : A) (w1 : world St1) (w2 : world St2) :
  same_world same w1 w2 -> agree same (ret a w1) (ret a w2).
Proof. by intros [? ?]. Qed.

Lemma agree_bind {A B} (m1 : M St1 A) (m2 : M St2 A)
    (k1 : A -> M St1 B) (k2 : A -> M St2 B) (w1 : world St1) (w2 : world St2) :
  agree same (m1 w1) (m2 w2) ->
  (forall a w1' w2', same_world same w1' w2' -> agree same (k1 a w1') (k2 a w2')) ->
  agree same (bind m1 k1 w1) (bind m2 k2 w2).
Proof.
  unfold bind. intros (Hres & Hw) Hk.
  destruct (m1 w1) as [[a|e] w1'], (m2 w2) as [[a'|e'] w2'];
    cbn [fst snd] in *; try discriminate.
  - injection Hres as <-. by apply Hk.
  - injection Hres as <-. by split.
Qed.

Lemma agree_choice {A} (seq : list A) (w1 : world St1) (w2 : world St2) :
  same_world same w1 w2 ->
  agree same (random_choice seq w1) (random_choice seq w2).
Proof.
  intros [Hchain Hrng]. unfold random_choice.
  destruct seq as [|a seq']; [by repeat split|].
  destruct (Hsame (List.length (a :: seq')) (w_rng w1) (w_rng w2)) as [Hi Hr];
    [cbn [List.length]; lia | done |].
  destruct (randbelow (List.length (a :: seq')) (w_rng w1)) as [i r1].
  destruct (randbelow (List.length (a :: seq')) (w_rng w2)) as [i' r2].
  cbn [fst snd] in *. subst i'.
  by destruct ((a :: seq') !! i); repeat split.
Qed.

Lemma agree_random_key (w1 : world St1) (w2 : world St2) :
  same_world same w1 w2 ->
  agree same (bind chain_keys random_choice w1) (bind chain_keys random_choice w2).
Proof.
  intros Hw. unfold bind, chain_keys. destruct Hw as [Hchain Hrng].
  rewrite Hchain. apply agree_choice. by split.
Qed.

Lemma agree_start_word (seed : option string) (w1 : world St1) (w2 : world St2) :
  same_world same w1 w2 ->
  agree same (start_word seed w1) (start_word seed w2).
Proof.
  intros Hw. unfold start_word.
  destruct seed as [s|]; [|by apply agree_random_key].
  destruct (str_truthy s); [|by apply agree_random_key].
  unfold bind at 1 3. unfold chain_contains.
  destruct Hw as [Hchain Hrng]. rewrite Hchain.
  destruct (dict_contains (w_chain w2) s).
  - by apply agree_ret.
  - by apply agree_random_key.
Qed.

Lemma agree_walk (n : nat) (word : string) (tweet_words : list string)
    (w1 : world St1) (w2 : world St2) :
  same_world same w1 w2 ->
  agree same (walk n word tweet_words w1) (walk n word tweet_words w2).
Proof.
  revert word tweet_words w1 w2.
  induction n as [|n IH]; intros word tweet_words w1 w2 Hw.
  - by apply agree_ret.
  - cbn [walk]. unfold bind at 1 3. unfold chain_get.
    destruct Hw as [Hchain Hrng]. rewrite Hchain.
    destruct (list_truthy (dict_get (w_chain w2) word [])).
    + apply agree_bind; [by apply agree_choice|].
      intros word' w1' w2' Hw'. by apply IH.
    + by apply agree_ret.
Qed.

Lemma agree_markov_words (length : Z) (seed : option string)
    (w1 : world St1) (w2 : world St2) :
  same_world same w1 w2 ->
  agree same (markov_words length seed w1) (markov_words length seed w2).
Proof.
  intros Hw. unfold markov_words.
  apply agree_bind; [by apply agree_start_word|].
  intros word w1' w2' Hw'. by apply agree_walk.
Qed.

Lemma agree_generate (length : Z) (seed : option string)
    (w1 : world St1) (w2 : world St2) :
  same_world same w1 w2 ->
  agree same (generate_markov_tweet length seed w1)
             (generate_markov_tweet length seed w2).
Proof.
  intros Hw. unfold generate_markov_tweet, bind at 1 3. unfold chain_truthy.
  destruct Hw as [Hchain Hrng]. rewrite Hchain.
  destruct (list_truthy (w_chain w2)); cbn [negb].
  - apply agree_bind; [by apply agree_markov_words|].
    intros ws w1' w2' Hw'. by apply agree_ret.
  - by apply agree_ret.
Qed.
End Determinism.

(** C7. The call is deterministic in the random source: two runs on the
    same table, length and seed whose random sources answer every draw
    alike (the same generator seeded alike, or a mock replaying the same
    choices) return the same result, leave the same table, and leave
    random sources that still answer alike. *)
Theorem same_draws_same_tweet {St1 St2 : Type}
    `{RandomSource St1} `{RandomSource St2} (same : St1 -> St2 -> Prop)
    (chain : Chain) (length : Z) (seed : option string) (r1 : St1) (r2 : St2) :
  same_draws same -> same r1 r2 ->
  agree same (generate_markov_tweet length seed (World chain r1))
             (generate_markov_tweet length seed (World chain r2)).
Proof. intros Hsame Hr. by apply agree_generate. Qed.

(** ** The properties at concrete inputs *)

Lemma word_count_in_range_witness :
  w_chain (World cycle_chain 0%nat) <> [] /\ 0 < 5
  /\ exists tweet_words w',
       returns_words (World cycle_chain 0%nat) 5 None tweet_words w'
       /\ 1 <= Z.of_nat (List.length tweet_words) <= 5.
Proof.
  split; [discriminate|]. split; [lia|].
  apply (word_count_in_range (World cycle_chain 0%nat) 5 None);
    [discriminate | lia].
Defined.

Lemma seed_is_first_word_witness :
  w_chain (World abc_chain 0%nat) <> [] /\ "a" <> ""
  /\ "a" ∈ dict_keys (w_chain (World abc_chain 0%nat))
  /\ exists rest w', returns_words (World abc_chain 0%nat) 3 (Some "a") ("a" :: rest) w'.
Proof.
  split; [discriminate|]. split; [discriminate|].
  split; [apply list_elem_of_here|].
  apply (seed_is_first_word (World abc_chain 0%nat) 3 "a");
    [discriminate | discriminate | apply list_elem_of_here].
Defined.

Lemma unseeded_first_word_is_key_witness :
  ("z" ∉ dict_keys cycle_chain)
  /\ exists word rest w',
       returns_words (World cycle_chain 3%nat) 2 (Some "z") (word :: rest) w'
       /\ word ∈ dict_keys cycle_chain
       /\ dict_keys cycle_chain !! 1%nat = Some word.
Proof.
  assert ("z" ∉ dict_keys cycle_chain) as Hnotin.
  { intros Hin.
    by repeat (apply elem_of_cons in Hin as [Hin|Hin]; [discriminate|]);
      apply elem_of_nil in Hin. }
  split; [exact Hnotin|].
  refine (unseeded_first_word_is_key (World cycle_chain 3%nat) 2 (Some "z") _ _);
    [discriminate|].
  right. right. exists "z". split; [reflexivity | exact Hnotin].
Defined.

Lemma dead_end_stops_witness :
  dict_lookup stub_chain "b" = Some []
  /\ dict_lookup abc_chain "c" = None
  /\ walk 3 "c" ["a"; "c"] (World abc_chain 0%nat)
     = (Ok ["a"; "c"], World abc_chain 0%nat)
  /\ walk 3 "b" ["a"; "b"] (World stub_chain 0%nat)
     = (Ok ["a"; "b"], World stub_chain 0%nat)
  /\ forall length seed,
       stub_chain <> [] ->
       exists ws w',
         returns_words (World stub_chain 0%nat) length seed ws w'
         /\ forall i, ws !! i = Some "b" -> S i = List.length ws.
Proof.
  split; [reflexivity|]. split; [reflexivity|]. split.
  - apply (dead_end_stops (World abc_chain 0%nat) 3 "c" ["a"; "c"]).
    left. reflexivity.
  - apply (dead_end_stops (World stub_chain 0%nat) 3 "b" ["a"; "b"]).
    right. reflexivity.
Defined.

Lemma same_draws_same_tweet_witness :
  same_draws counts_from
  /\ counts_from 7%nat (fun k => k, 7%nat)
  /\ agree counts_from
       (generate_markov_tweet 3 None (World abc_chain 7%nat))
       (generate_markov_tweet 3 None (World abc_chain (fun k => k, 7%nat))).
Proof.
  assert (same_draws counts_from) as Hsame
    by (intros n s t _ ->; split; reflexivity).
  split; [exact Hsame|]. split; [reflexivity|].
  apply (same_draws_same_tweet counts_from abc_chain 3 None 7%nat (fun k => k, 7%nat));
    [exact Hsame | reflexivity].
Defined.

Lemma nonpositive_length_single_word_witness :
  exists word w',
    returns_words (World cycle_chain 0%nat) (-3) (Some "y") [word] w'
    /\ generate_markov_tweet (-3) (Some "y") (World cycle_chain 0%nat) = (Ok word, w')
    /\ word ∈ dict_keys cycle_chain.
Proof.
  apply (nonpositive_length_single_word (World cycle_chain 0%nat) (-3) (Some "y"));
    [discriminate | lia].
Defined.

Lemma generated_sequence_is_path_witness :
  exists tweet_words w',
    returns_words (World abc_chain 1%nat) 3 None tweet_words w'
    /\ forall i prev next,
         tweet_words !! i = Some prev -> tweet_words !! S i = Some next ->
         exists next_words,
           dict_lookup abc_chain prev = Some next_words /\ next ∈ next_words.
Proof.
  apply (generated_sequence_is_path (World abc_chain 1%nat) 3 None). discriminate.
Defined.

(** C9 as stated fails: a call that makes a random choice moves the random
    generator on.  With the cycle table, length 5 and seed "x" the call
    makes four choices; the table is the same afterwards, the state of the
    random source is not. *)
Lemma call_advances_random_source :
  generate_markov_tweet 5 (Some "x") (World cycle_chain 0%nat)
  = (Ok "x y x y x", World cycle_chain 4%nat)
  /\ (generate_markov_tweet 5 (Some "x") (World cycle_chain 0%nat)).2
     <> World cycle_chain 0%nat.
Proof. split; [reflexivity | discriminate]. Qed.

(** ** More on the walk *)

Lemma last_cons_default {A} (x d : A) (l : list A) :
  List.last (x :: l) d = List.last l x.
Proof.
  revert x d. induction l as [|y l IH]; intros x d; [done|].
  change (List.last (x :: y :: l) d) with (List.last (y :: l) d).
  by rewrite !IH.
Qed.

Lemma last_cons_Some {A} (x : A) (l : list A) :
  last (x :: l) = Some (List.last l x).
Proof.
  revert x. induction l as [|y l IH]; intros x; [done|].
  rewrite last_cons_default, <- IH. done.
Qed.

Lemma dict_lookup_item d k v : dict_lookup d k = Some v -> In (k, v) d.
Proof.
  induction d as [|[k' v'] d IH]; simpl; [done|].
  destruct (String.eqb_spec k k') as [->|Hne].
  - intros [= ->]. by left.
  - intros Hl. right. by apply IH.
Qed.

(** In a table without dead ends the successors stored under a key are
    some, and are keys again. *)
Lemma no_dead_end_get d word :
  no_dead_end d = true -> dict_contains d word = true ->
  dict_get d word [] <> []
  /\ forall word', word' ∈ dict_get d word [] -> dict_contains d word' = true.
Proof.
  intros Hclosed Hin. unfold dict_contains, dict_get in *.
  destruct (dict_lookup d word) as [v|] eqn:Hlook; [|done].
  apply dict_lookup_item in Hlook.
  unfold no_dead_end in Hclosed. rewrite forallb_forall in Hclosed.
  apply Hclosed in Hlook. cbn [snd default] in *.
  apply andb_true_iff in Hlook as [Hsome Hkeys]. split.
  - by destruct v.
  - intros word' Hw'. rewrite forallb_forall in Hkeys.
    apply Hkeys. by apply list_elem_of_In.
Qed.

Lemma single_successors_get d word :
  single_successors d = true -> (List.length (dict_get d word []) <= 1)%nat.
Proof.
  intros Hsingle. unfold dict_get.
  destruct (dict_lookup d word) as [v|] eqn:Hlook; [|cbn; lia].
  apply dict_lookup_item in Hlook.
  unfold single_successors in Hsingle. rewrite forallb_forall in Hsingle.
  apply Hsingle in Hlook. cbn [snd default] in *. by apply Nat.leb_le.
Qed.

Section WalkFacts.
Context {St : Type} `{RandomSource St}.

(** Lines 49-54: the loop ends after all its iterations or, earlier, at a
    word with no stored successors. *)
Lemma walk_stop_reason (n : nat) (word : string) (tweet_words : list string)
    (w : world St) :
  exists rest r,
    walk n word tweet_words w = (Ok (tweet_words ++ rest), World (w_chain w) r)
    /\ (List.length rest = n
        \/ dict_get (w_chain w) (List.last rest word) [] = []).
Proof.
  revert word tweet_words w.
  induction n as [|n IH]; intros word tweet_words w.
  - exists [], (w_rng w). destruct w as [d r]. cbn [walk ret w_chain w_rng].
    rewrite app_nil_r. split; [done | by left].
  - cbn [walk]. unfold bind at 1. unfold chain_get.
    destruct (dict_get (w_chain w) word []) as [|a next_words] eqn:Hget.
    + exists [], (w_rng w). destruct w as [d r]. cbn [w_chain w_rng] in *.
      cbn [list_truthy ret]. rewrite app_nil_r. split; [done | by right].
    + unfold bind. cbn [list_truthy]. cbv beta.
      destruct (random_choice_ok (a :: next_words) w) as (word' & r & -> & Hin);
        [done|].
      destruct (IH word' (tweet_words ++ [word']) (World (w_chain w) r))
        as (rest & r' & -> & Hstop).
      cbn [w_chain] in *. exists (word' :: rest), r'.
      rewrite <- app_assoc. split; [done|].
      rewrite last_cons_default. cbn [List.length].
      destruct Hstop as [<-|Hdead]; [by left | by right].
Qed.

(** Lines 49-54 on a table without dead ends: from a key, the loop runs
    all its iterations. *)
Lemma walk_no_dead_end (n : nat) (word : string) (tweet_words : list string)
    (w : world St) :
  no_dead_end (w_chain w) = true -> dict_contains (w_chain w) word = true ->
  exists rest r,
    walk n word tweet_words w = (Ok (tweet_words ++ rest), World (w_chain w) r)
    /\ List.length rest = n.
Proof.
  intros Hclosed. revert word tweet_words w Hclosed.
  induction n as [|n IH]; intros word tweet_words w Hclosed Hkey.
  - exists [], (w_rng w). destruct w as [d r]. cbn [walk ret w_chain w_rng].
    by rewrite app_nil_r.
  - destruct (no_dead_end_get _ _ Hclosed Hkey) as [Hsome Hkeys].
    cbn [walk]. unfold bind at 1. unfold chain_get.
    destruct (dict_get (w_chain w) word []) as [|a next_words] eqn:Hget; [done|].
    unfold bind. cbn [list_truthy]. cbv beta.
    destruct (random_choice_ok (a :: next_words) w) as (word' & r & -> & Hin);
      [done|].
    destruct (IH word' (tweet_words ++ [word']) (World (w_chain w) r))
      as (rest & r' & -> & Hlen); [done | by apply Hkeys |].
    cbn [w_chain] in *. exists (word' :: rest), r'.
    rewrite <- app_assoc. split; [done|]. cbn [List.length]. by rewrite Hlen.
Qed.

(** Lines 49-54: more iterations only append to what fewer iterations
    build from the same state. *)
Lemma walk_extends (n m : nat) (word : string) (tweet_words : list string)
    (w : world St) :
  exists rest more r r',
    walk n word tweet_words w = (Ok (tweet_words ++ rest), World (w_chain w) r)
    /\ walk (n + m) word tweet_words w
       = (Ok (tweet_words ++ rest ++ more), World (w_chain w) r').
Proof.
  revert word tweet_words w.
  induction n as [|n IH]; intros word tweet_words w.
  - destruct (walk_spec m word tweet_words w) as (more & r' & Hm & _).
    exists [], more, (w_rng w), r'. destruct w as [d r].
    cbn [walk ret w_chain w_rng Nat.add app] in *. by rewrite app_nil_r.
  - cbn [walk Nat.add]. unfold bind at 1 3. unfold chain_get.
    destruct (dict_get (w_chain w) word []) as [|a next_words] eqn:Hget.
    + exists [], [], (w_rng w), (w_rng w). destruct w as [d r].
      cbn [list_truthy ret w_chain w_rng app]. by rewrite app_nil_r.
    + unfold bind. cbn [list_truthy]. cbv beta.
      destruct (random_choice_ok (a :: next_words) w) as (word' & r & -> & Hin);
        [done|].
      destruct (IH word' (tweet_words ++ [word']) (World (w_chain w) r))
        as (rest & more & r1 & r2 & -> & ->).
      cbn [w_chain]. exists (word' :: rest), more, r1, r2.
      by rewrite <- !app_assoc.
Qed.
End WalkFacts.

(** ** Further properties of [generate_markov_tweet] *)

Section MoreProperties.
Context {St : Type} `{RandomSource St}.

(** X1. A seed that is the empty string or is not a key of the table is
    ignored: the call does what the call without a seed does, result and
    state of the random source alike. *)
Theorem unusable_seed_as_no_seed (w : world St) (length : Z) (s : string) :
  s = "" \/ s ∉ dict_keys (w_chain w) ->
  generate_markov_tweet length (Some s) w = generate_markov_tweet length None w.
Proof.
  intros Hs.
  assert (start_word (Some s) w = start_word None w) as Hstart.
  { rewrite !start_word_unseeded; [done | by left |].
    destruct Hs as [->|Hs]; [by right; left | right; right; by exists s]. }
  unfold generate_markov_tweet, bind at 1 3. unfold chain_truthy.
  destruct (negb (list_truthy (w_chain w))); [done|].
  unfold markov_words, bind. by rewrite Hstart.
Qed.

(** X2. With a usable seed, when at most one word is requested or the seed
    has no stored successors, the tweet is the seed alone and no random
    choice is made: the table and the random source are as before. *)
Theorem usable_seed_alone_without_draw (w : world St) (length : Z) (s : string) :
  s <> "" -> s ∈ dict_keys (w_chain w) ->
  length <= 1 \/ dict_get (w_chain w) s [] = [] ->
  generate_markov_tweet length (Some s) w = (Ok s, w).
Proof.
  intros Hs Hkey Hstop.
  assert (w_chain w <> []) as Hne.
  { intros Hempty. rewrite Hempty in Hkey. by apply elem_of_nil in Hkey. }
  rewrite generate_nonempty by done.
  unfold markov_words, bind.
  rewrite start_word_seed; [|by destruct s | by apply dict_contains_keys].
  assert (walk (Z.to_nat (length - 1)) s [s] w = (Ok [s], w)) as ->.
  { destruct Hstop as [Hlen|Hdead]; [|by apply walk_dead_end].
    by replace (Z.to_nat (length - 1)) with 0%nat by lia. }
  cbn [fst snd result_map]. by destruct s.
Qed.

(** X3. On a non-empty table the tweet has the requested number of words
    (one word, for a request of one or less) unless its last word has no
    stored successors: the only early stop is at a dead end. *)
Theorem short_tweet_ends_at_dead_end (w : world St) (length : Z)
    (seed : option string) :
  w_chain w <> [] ->
  exists tweet_words w',
    returns_words w length seed tweet_words w'
    /\ (Z.of_nat (List.length tweet_words) = Z.max 1 length
        \/ exists word,
             last tweet_words = Some word
             /\ dict_get (w_chain w) word [] = []).
Proof.
  intros Hne.
  destruct (start_word_ok seed w Hne) as (word & r0 & Hstart & _).
  destruct (walk_stop_reason (Z.to_nat (length - 1)) word [word]
              (World (w_chain w) r0)) as (rest & r & Hwalk & Hstop).
  cbn [w_chain] in *.
  exists (word :: rest), (World (w_chain w) r). split.
  - apply returns_words_intro; [done|].
    unfold markov_words, bind. by rewrite Hstart, Hwalk.
  - destruct Hstop as [Hlen|Hdead].
    + left. cbn [List.length]. lia.
    + right. exists (List.last rest word). split; [|done].
      by apply last_cons_Some.
Qed.

(** X4. On a non-empty table in which every stored successor list is
    non-empty and holds only keys, the tweet has exactly the requested
    number of words (one word, for a request of one or less). *)
Theorem no_dead_end_full_length (w : world St) (length : Z)
    (seed : option string) :
  w_chain w <> [] -> no_dead_end (w_chain w) = true ->
  exists tweet_words w',
    returns_words w length seed tweet_words w'
    /\ Z.of_nat (List.length tweet_words) = Z.max 1 length.
Proof.
  intros Hne Hclosed.
  destruct (start_word_ok seed w Hne) as (word & r0 & Hstart & Hkey).
  destruct (walk_no_dead_end (Z.to_nat (length - 1)) word [word]
              (World (w_chain w) r0)) as (rest & r & Hwalk & Hlen);
    [done | by apply dict_contains_keys |].
  cbn [w_chain] in *.
  exists (word :: rest), (World (w_chain w) r). split.
  - apply returns_words_intro; [done|].
    unfold markov_words, bind. by rewrite Hstart, Hwalk.
  - cbn [List.length]. lia.
Qed.

(** X5. From the same table, seed and state of the random source, a
    request for more words extends the tweet of a request for fewer: the
    shorter sequence is a prefix of the longer. *)
Theorem longer_request_extends (w : world St) (length length' : Z)
    (seed : option string) :
  w_chain w <> [] -> length <= length' ->
  exists tweet_words tweet_words' w1 w2,
    returns_words w length seed tweet_words w1
    /\ returns_words w length' seed tweet_words' w2
    /\ tweet_words `prefix_of` tweet_words'.
Proof.
  intros Hne Hle.
  destruct (start_word_ok seed w Hne) as (word & r0 & Hstart & _).
  destruct (walk_extends (Z.to_nat (length - 1))
              (Z.to_nat (length' - 1) - Z.to_nat (length - 1))
              word [word] (World (w_chain w) r0))
    as (rest & more & r1 & r2 & Hshort & Hlong).
  replace (Z.to_nat (length - 1)
           + (Z.to_nat (length' - 1) - Z.to_nat (length - 1)))%nat
    with (Z.to_nat (length' - 1)) in Hlong by lia.
  cbn [w_chain] in *.
  exists (word :: rest), (word :: rest ++ more),
    (World (w_chain w) r1), (World (w_chain w) r2).
  split; [|split].
  - apply returns_words_intro; [done|].
    unfold markov_words, bind. by rewrite Hstart, Hshort.
  - apply returns_words_intro; [done|].
    unfold markov_words, bind. by rewrite Hstart, Hlong.
  - by exists more.
Qed.
End MoreProperties.

(** ** Tables that leave no choice *)

Section NoChoice.
Context {St1 St2 : Type} `{RandomSource St1} `{RandomSource St2}.

(** Lines 49-54 on a table whose successor lists have at most one element:
    the words built do not depend on the random source. *)
Lemma walk_single_successors (n : nat) (word : string)
    (tweet_words : list string) (w1 : world St1) (w2 : world St2) :
  w_chain w1 = w_chain w2 -> single_successors (w_chain w1) = true ->
  (walk n word tweet_words w1).1 = (walk n word tweet_words w2).1.
Proof.
  revert word tweet_words w1 w2.
  induction n as [|n IH]; intros word tweet_words w1 w2 Hchain Hsingle; [done|].
  pose proof (single_successors_get _ word Hsingle) as Hlen.
  destruct (dict_get (w_chain w1) word []) as [|word' [|? ?]] eqn:Hget.
  - rewrite !walk_dead_end; [done | by rewrite <- Hchain | done].
  - destruct (walk_only_successor n word word' tweet_words w1 Hget) as [r1 ->].
    destruct (walk_only_successor n word word' tweet_words w2) as [r2 ->];
      [by rewrite <- Hchain|].
    apply IH; [by cbn [w_chain] | done].
  - cbn [List.length] in Hlen. lia.
Qed.
End NoChoice.

(** X6. On a table whose successor lists all have at most one element, a
    call with a usable seed returns the same tweet whatever the random
    source and its state. *)
Theorem single_successors_any_source {St1 St2 : Type}
    `{RandomSource St1} `{RandomSource St2}
    (chain : Chain) (length : Z) (s : string) (r1 : St1) (r2 : St2) :
  single_successors chain = true -> s <> "" -> s ∈ dict_keys chain ->
  (generate_markov_tweet length (Some s) (World chain r1)).1
  = (generate_markov_tweet length (Some s) (World chain r2)).1.
Proof.
  intros Hsingle Hs Hkey.
  assert (chain <> []) as Hne.
  { intros ->. by apply elem_of_nil in Hkey. }
  rewrite !generate_nonempty by done. cbn [fst]. f_equal.
  unfold markov_words, bind.
  rewrite !start_word_seed;
    [|by destruct s | by apply dict_contains_keys
     |by destruct s | by apply dict_contains_keys].
  pose proof (walk_single_successors (Z.to_nat (length - 1)) s [s]
                (World chain r1) (World chain r2) eq_refl Hsingle) as Hwalk.
  by destruct (walk _ _ _ (World chain r1)) as [? ?],
              (walk _ _ _ (World chain r2)) as [? ?].
Qed.

(** ** How many draws a call makes *)

Section DrawCount.
Context {St : Type} `{RandomSource St}.
#[local] Existing Instance counting_source.

Lemma counting_same_draws :
  same_draws (fun (s : St) (t : St * nat) => t.1 = s).
Proof. intros n s [s' c] _ Hs. cbn [fst] in Hs. subst s'. by split. Qed.

Lemma random_choice_counts {A} (seq : list A) (d : Chain) (r : St) (c : nat) :
  seq <> [] ->
  exists x r', random_choice seq (World d (r, c)) = (Ok x, World d (r', S c)).
Proof.
  intros Hne.
  destruct (random_choice_draw seq (World d (r, c)) Hne) as (x & _ & ->).
  by exists x, (randbelow (List.length seq) r).2.
Qed.

Lemma start_word_counts (d : Chain) (seed : option string) (r : St) (c : nat) :
  d <> [] ->
  exists word r',
    start_word seed (World d (r, c))
    = (Ok word,
       World d (r', (c + (if seed_usable d seed then 0 else 1))%nat)).
Proof.
  intros Hne.
  assert (exists word r',
            bind chain_keys random_choice (World d (r, c))
            = (Ok word, World d (r', (c + 1)%nat))) as Hrandom.
  { unfold bind, chain_keys. cbn [w_chain].
    destruct (random_choice_counts (dict_keys d) d r c) as (word & r' & ->);
      [by apply dict_keys_nonempty|].
    exists word, r'. by rewrite Nat.add_1_r. }
  unfold start_word, seed_usable.
  destruct seed as [s|]; [|done].
  destruct (str_truthy s); [|done].
  unfold bind at 1. unfold chain_contains. cbn [w_chain andb].
  destruct (dict_contains d s); [|done].
  exists s, r. by rewrite Nat.add_0_r.
Qed.

Lemma walk_counts (n : nat) (word : string) (tweet_words : list string)
    (d : Chain) (r : St) (c : nat) :
  exists rest r',
    walk n word tweet_words (World d (r, c))
    = (Ok (tweet_words ++ rest), World d (r', (c + List.length rest)%nat)).
Proof.
  revert word tweet_words r c.
  induction n as [|n IH]; intros word tweet_words r c.
  - exists [], r. cbn [walk ret List.length]. by rewrite app_nil_r, Nat.add_0_r.
  - cbn [walk]. unfold bind at 1. unfold chain_get. cbn [w_chain].
    destruct (dict_get d word []) as [|a next_words] eqn:Hget.
    + exists [], r. cbn [list_truthy ret List.length].
      by rewrite app_nil_r, Nat.add_0_r.
    + unfold bind. cbn [list_truthy]. cbv beta.
      destruct (random_choice_counts (a :: next_words) d r c)
        as (word' & r1 & ->); [done|].
      destruct (IH word' (tweet_words ++ [word']) r1 (S c)) as (rest & r' & ->).
      exists (word' :: rest), r'. rewrite <- app_assoc. cbn [List.length app].
      by rewrite Nat.add_succ_r.
Qed.
End DrawCount.

(** X7. A call on a non-empty table makes one draw for each word after the
    first, and one more for the start word unless the seed is usable: run
    on a source that counts its draws, the call returns the same tweet,
    leaves the source below in the same state, and adds that number to the
    count. *)
Theorem draws_per_call {St : Type} `{RandomSource St}
    (chain : Chain) (length : Z) (seed : option string) (r : St) (c : nat) :
  chain <> [] ->
  exists tweet_words r',
    returns_words (World chain r) length seed tweet_words (World chain r')
    /\ @generate_markov_tweet (St * nat) counting_source length seed
         (World chain (r, c))
       = (Ok (str_join " " tweet_words),
          World chain
            (r', (c + (if seed_usable chain seed then 0 else 1)
                  + (List.length tweet_words - 1))%nat)).
Proof.
  intros Hne.
  destruct (markov_words_spec length seed (World chain r) Hne)
    as (word & rest & r' & Hrun & _).
  cbn [w_chain] in Hrun.
  exists (word :: rest), r'. split; [by apply returns_words_intro|].
  pose proof (agree_markov_words (H0 := counting_source) _ counting_same_draws
                length seed (World chain r) (World chain (r, c))
                (conj eq_refl eq_refl)) as (Hres & _ & Hrng).
  rewrite Hrun in Hres, Hrng. cbn [fst snd w_rng] in Hres, Hrng.
  destruct (start_word_counts chain seed r c Hne) as (word0 & r0 & Hstart).
  destruct (walk_counts (Z.to_nat (length - 1)) word0 [word0] chain r0
              (c + (if seed_usable chain seed then 0 else 1))%nat)
    as (rest0 & r1 & Hwalk).
  rewrite (generate_nonempty (H := counting_source)) by done.
  unfold markov_words, bind in Hres, Hrng |- *.
  rewrite Hstart in Hres, Hrng |- *. rewrite Hwalk in Hres, Hrng |- *.
  cbn [fst snd w_rng result_map] in *.
  injection Hres as Hword Hrest. subst r1 word0 rest0.
  cbn [app List.length]. do 3 f_equal. lia.
Qed.

(** ** The caller *)

(** X8. For a user with no table in [markov_chains], or with an empty one,
    a press of "Generate Tweet" displays the sentinel as a bold block
    quote, whatever the length and the seed text, and makes no draw. *)
Theorem unknown_user_sentinel_markdown {St : Type} `{RandomSource St}
    (markov_chains : list (string * Chain)) (selected_user : string)
    (tweet_length : Z) (seed_text : string) (r : St) :
  chains_lookup markov_chains selected_user = None
    \/ chains_lookup markov_chains selected_user = Some [] ->
  generated_tweet_markdown markov_chains selected_user tweet_length seed_text r
  = (Ok "> **Not enough data to generate a tweet.**", World [] r).
Proof.
  intros Hlook. unfold generated_tweet_markdown, chains_get.
  destruct Hlook as [->| ->]; cbn [default from_option id];
    by rewrite generate_empty.
Qed.

(** ** Filtering by date *)

Lemma filter_filter_implied {B} (p q : B -> bool) (l : list B) :
  (forall x, q x = true -> p x = true) ->
  List.filter q (List.filter p l) = List.filter q l.
Proof.
  intros Himp. induction l as [|x l IH]; [done|]. cbn [List.filter].
  destruct (p x) eqn:Hp.
  - cbn [List.filter]. destruct (q x); by rewrite IH.
  - destruct (q x) eqn:Hq; [|done]. apply Himp in Hq. congruence.
Qed.


Section FilterFacts.
Context {A D : Type}.
Variable parse : list cell -> string -> option Z.
Variable stamp : D -> Z.

Lemma to_datetime_coerce_dated (column : list cell) (c : cell) :
  is_datetime (to_datetime_coerce parse column c) = true.
Proof. destruct c as [s| | |]; cbn; [by destruct (parse column s) | done..]. Qed.

Lemma to_datetime_coerce_fixed (column : list cell) (c : cell) :
  to_datetime_coerce parse column c = c <-> is_datetime c = true.
Proof.
  split.
  - intros <-. apply to_datetime_coerce_dated.
  - by destruct c.
Qed.

Lemma convert_row_fixed (column : list cell) (r : row A) :
  Row (to_datetime_coerce parse column (Date r)) (columns r) = r <-> dated r.
Proof.
  destruct r as [c a]. unfold dated. cbn [Date columns].
  rewrite <- (to_datetime_coerce_fixed column). split.
  - by intros [= ->].
  - by intros ->.
Qed.

Lemma convert_rows_fixed (column : list cell) (l : list (row A)) :
  map (fun r => Row (to_datetime_coerce parse column (Date r)) (columns r)) l = l
  <-> Forall dated l.
Proof.
  induction l as [|r l IH]; [by split; [constructor|]|]. cbn [map]. split.
  - intros [= Hr Hl]. constructor; [by eapply convert_row_fixed | by apply IH].
  - intros [Hr Hl]%Forall_cons. f_equal; [by apply convert_row_fixed | by apply IH].
Qed.

Lemma convert_dates_dated (data : list (row A)) :
  Forall dated (convert_dates parse data).
Proof.
  unfold convert_dates. apply Forall_map, Forall_true.
  intros r. apply to_datetime_coerce_dated.
Qed.

Lemma convert_dates_fixed (data : list (row A)) :
  convert_dates parse data = data <-> Forall dated data.
Proof. apply convert_rows_fixed. Qed.

Lemma in_date_range_spec (start_date end_date : D) (r : row A) :
  in_date_range stamp start_date end_date r = true
  <-> exists t, Date r = Timestamp t
                /\ stamp start_date <= t <= stamp end_date.
Proof.
  unfold in_date_range, cell_ge, cell_le. destruct (Date r) as [s| |t|].
  - split; [done | by intros (t & ? & _)].
  - split; [done | by intros (t & ? & _)].
  - rewrite andb_true_iff, !Z.leb_le. split.
    + intros [? ?]. by exists t.
    + by intros (t' & [= <-] & ? & ?).
  - split; [done | by intros (t & ? & _)].
Qed.

Lemma filter_dated (p : row A -> bool) (l : list (row A)) :
  Forall dated l -> Forall dated (List.filter p l).
Proof.
  induction 1 as [|r l Hr Hl IH]; [constructor|]. cbn [List.filter].
  destruct (p r); [by constructor | done].
Qed.
End FilterFacts.

Section FilterProperties.
Context {A D : Type}.
Variable parse : list cell -> string -> option Z.
Variable stamp : D -> Z.


(** X10. [filter_by_date] changes the frame it is passed: afterwards every
    date of the frame is a timestamp or [NaT], while the rows are as many
    and their other columns are the same.  The frame is left as it was
    exactly when all its dates were timestamps or [NaT] already. *)
Theorem filter_by_date_converts_argument (data : list (row A))
    (start_date end_date : D) :
  Forall dated (filter_by_date parse stamp data start_date end_date).1
  /\ map columns (filter_by_date parse stamp data start_date end_date).1
     = map columns data
  /\ ((filter_by_date parse stamp data start_date end_date).1 = data
      <-> Forall dated data).
Proof.
  unfold filter_by_date. cbn [fst]. split; [apply convert_dates_dated|].
  split; [|apply convert_dates_fixed].
  unfold convert_dates. rewrite map_map. by apply map_ext.
Qed.

(** X11. A second call on the frame a first call has converted, with any
    bounds, leaves the frame as it is and returns what a call with those
    bounds on the original frame returns. *)
Theorem filter_by_date_again (data : list (row A))
    (start_date end_date start_date' end_date' : D) :
  filter_by_date parse stamp
    (filter_by_date parse stamp data start_date end_date).1
    start_date' end_date'
  = filter_by_date parse stamp data start_date' end_date'.
Proof.
  unfold filter_by_date. cbn [fst].
  assert (convert_dates parse (convert_dates parse data)
          = convert_dates parse data) as ->; [|done].
  apply convert_dates_fixed, convert_dates_dated.
Qed.

(** X12. Filtering a returned frame again by bounds that lie within the
    first ones gives what filtering the original frame by the inner bounds
    gives, and does not change the returned frame. *)
Theorem filter_by_date_narrow (data : list (row A))
    (start_date end_date start_date' end_date' : D) :
  stamp start_date <= stamp start_date' ->
  stamp end_date' <= stamp end_date ->
  filter_by_date parse stamp
    (filter_by_date parse stamp data start_date end_date).2
    start_date' end_date'
  = ((filter_by_date parse stamp data start_date end_date).2,
     (filter_by_date parse stamp data start_date' end_date').2).
Proof.
  intros Hstart Hend. unfold filter_by_date. cbn [fst snd].
  assert (convert_dates parse
            (List.filter (in_date_range stamp start_date end_date)
               (convert_dates parse data))
          = List.filter (in_date_range stamp start_date end_date)
              (convert_dates parse data)) as ->.
  { apply convert_dates_fixed, filter_dated, convert_dates_dated. }
  f_equal. apply filter_filter_implied.
  intros r (t & Ht & Hlo & Hhi)%in_date_range_spec.
  apply in_date_range_spec. exists t. split; [done | lia].
Qed.

End FilterProperties.

(** ** The further properties at concrete inputs *)

Lemma unusable_seed_as_no_seed_witness :
  ("z" ∉ dict_keys cycle_chain)
  /\ generate_markov_tweet 4 (Some "z") (World cycle_chain 3%nat)
     = generate_markov_tweet 4 None (World cycle_chain 3%nat).
Proof.
  assert ("z" ∉ dict_keys cycle_chain) as Hnotin.
  { intros Hin%dict_contains_keys. discriminate Hin. }
  split; [exact Hnotin|].
  apply (unusable_seed_as_no_seed (World cycle_chain 3%nat) 4 "z").
  right. exact Hnotin.
Defined.

Lemma usable_seed_alone_without_draw_witness :
  dict_get stub_chain "b" [] = []
  /\ generate_markov_tweet 10 (Some "b") (World stub_chain 5%nat)
     = (Ok "b", World stub_chain 5%nat).
Proof.
  split; [reflexivity|].
  apply (usable_seed_alone_without_draw (World stub_chain 5%nat) 10 "b").
  - discriminate.
  - apply dict_contains_keys. reflexivity.
  - right. reflexivity.
Defined.

Lemma short_tweet_ends_at_dead_end_witness :
  exists tweet_words w',
    returns_words (World abc_chain 0%nat) 3 (Some "a") tweet_words w'
    /\ (Z.of_nat (List.length tweet_words) = Z.max 1 3
        \/ exists word,
             last tweet_words = Some word /\ dict_get abc_chain word [] = []).
Proof.
  apply (short_tweet_ends_at_dead_end (World abc_chain 0%nat) 3 (Some "a")).
  discriminate.
Defined.

Lemma no_dead_end_full_length_witness :
  no_dead_end cycle_chain = true
  /\ exists tweet_words w',
       returns_words (World cycle_chain 1%nat) 20 None tweet_words w'
       /\ Z.of_nat (List.length tweet_words) = Z.max 1 20.
Proof.
  split; [reflexivity|].
  apply (no_dead_end_full_length (World cycle_chain 1%nat) 20 None);
    [discriminate | reflexivity].
Defined.

Lemma longer_request_extends_witness :
  exists tweet_words tweet_words' w1 w2,
    returns_words (World abc_chain 2%nat) 1 None tweet_words w1
    /\ returns_words (World abc_chain 2%nat) 5 None tweet_words' w2
    /\ tweet_words `prefix_of` tweet_words'.
Proof.
  apply (longer_request_extends (World abc_chain 2%nat) 1 5 None);
    [discriminate | lia].
Defined.

Lemma single_successors_any_source_witness :
  single_successors cycle_chain = true
  /\ (generate_markov_tweet 6 (Some "y") (World cycle_chain 3%nat)).1
     = (generate_markov_tweet 6 (Some "y")
          (World cycle_chain (fun k : nat => (7 * k)%nat, 0%nat))).1.
Proof.
  split; [reflexivity|].
  apply (single_successors_any_source cycle_chain 6 "y" 3%nat
           (fun k : nat => (7 * k)%nat, 0%nat)).
  - reflexivity.
  - discriminate.
  - apply dict_contains_keys. reflexivity.
Defined.

Lemma draws_per_call_witness :
  exists tweet_words r',
    returns_words (World abc_chain 4%nat) 3 (Some "") tweet_words
      (World abc_chain r')
    /\ @generate_markov_tweet (nat * nat) counting_source 3 (Some "")
         (World abc_chain (4%nat, 0%nat))
       = (Ok (str_join " " tweet_words),
          World abc_chain (r', (0 + 1 + (List.length tweet_words - 1))%nat)).
Proof.
  apply (draws_per_call abc_chain 3 (Some "") 4%nat 0%nat). discriminate.
Defined.

Lemma unknown_user_sentinel_markdown_witness :
  generated_tweet_markdown sample_chains "carol" 20 "x" 0%nat
  = (Ok "> **Not enough data to generate a tweet.**", World [] 0%nat)
  /\ generated_tweet_markdown sample_chains "bob" 20 "x" 0%nat
     = (Ok "> **Not enough data to generate a tweet.**", World [] 0%nat).
Proof.
  split.
  - apply (unknown_user_sentinel_markdown sample_chains "carol" 20 "x" 0%nat).
    left. reflexivity.
  - apply (unknown_user_sentinel_markdown sample_chains "bob" 20 "x" 0%nat).
    right. reflexivity.
Defined.

Lemma filter_by_date_narrow_witness :
  day_stamp 0 <= day_stamp 1 /\ day_stamp 1 <= day_stamp 2
  /\ filter_by_date three_day_parse day_stamp
       (filter_by_date three_day_parse day_stamp sample_frame 0 2).2 1 1
     = ((filter_by_date three_day_parse day_stamp sample_frame 0 2).2,
        (filter_by_date three_day_parse day_stamp sample_frame 1 1).2).
Proof.
  assert (day_stamp 0 <= day_stamp 1) as Hstart by (vm_compute; discriminate).
  assert (day_stamp 1 <= day_stamp 2) as Hend by (vm_compute; discriminate).
  split; [exact Hstart|]. split; [exact Hend|].
  exact (filter_by_date_narrow three_day_parse day_stamp sample_frame
           0 2 1 1 Hstart Hend).
Defined.

